(** * TodoApp: a shallow embedding of [smart_contracts/todo_app/contract.py]

    The contract keeps one [GlobalState] counter and two [BoxMap]s keyed by
    the todo id.  Every ABI method is embedded as a computation in a small
    state-and-abort monad: the state is the contract storage, and an abort
    is an AVM failure (the whole call is rejected and storage is left as it
    was). *)

From Stdlib Require Import ZArith String List Lia.
From stdpp Require Import base option gmap strings list fin_maps.

Local Open Scope string_scope.
Local Open Scope list_scope.
Local Open Scope Z_scope.

(** ** Unsigned 64-bit integers ([algopy.UInt64], [arc4.UInt64]) *)

Module UInt64.

Definition width : Z := 64.
Definition modulus : Z := 2 ^ width.
Definition max_value : Z := modulus - 1.

Definition in_range (x : Z) : Prop := 0 <= x <= max_value.

(** [a + b] on [UInt64]: the AVM [+] fails when the sum leaves the 64-bit
    range. *)
Definition add (a b : Z) : option Z :=
  if a + b <=? max_value then Some (a + b) else None.

End UInt64.

(** ** Contract storage *)

(** [self.todo_counter], [self.todos] and [self.completed]. *)
Record TodoApp : Type := mkTodoApp {
  todo_counter : Z;
  todos : gmap Z string;
  completed : gmap Z bool
}.

(** [__init__]: counter at zero, both box maps empty. *)
Definition init : TodoApp :=
  {| todo_counter := 0; todos := ∅; completed := ∅ |}.

Definition set_todo_counter (v : Z) (s : TodoApp) : TodoApp :=
  {| todo_counter := v; todos := todos s; completed := completed s |}.

Definition set_todos (m : gmap Z string) (s : TodoApp) : TodoApp :=
  {| todo_counter := todo_counter s; todos := m; completed := completed s |}.

Definition set_completed (m : gmap Z bool) (s : TodoApp) : TodoApp :=
  {| todo_counter := todo_counter s; todos := todos s; completed := m |}.

(** ** The contract monad: storage passing with abort *)

Definition Contract (A : Type) : Type := TodoApp -> option (A * TodoApp).

Definition ret {A} (a : A) : Contract A := fun s => Some (a, s).

Definition bind {A B} (c : Contract A) (k : A -> Contract B) : Contract B :=
  fun s => match c s with
           | Some (a, s') => k a s'
           | None => None
           end.

Notation "'let*' x ':=' c 'in' k" := (bind c (fun x => k))
  (at level 10, x name, c at level 100, k at level 200).
Notation "c ';;' k" := (bind c (fun _ => k))
  (at level 100, k at level 200, right associativity).

Definition lift_option {A} (o : option A) : Contract A :=
  fun s => match o with Some a => Some (a, s) | None => None end.

(** *** [GlobalState] *)

(** [self.todo_counter.value] *)
Definition todo_counter_value : Contract Z :=
  fun s => Some (todo_counter s, s).

(** [self.todo_counter.value = v] *)
Definition todo_counter_assign (v : Z) : Contract unit :=
  fun s => Some (tt, set_todo_counter v s).

(** *** [BoxMap] *)

(** A box map of the contract is a field of the storage: how to read the
    field and how to write it back. *)
Record BoxMap (V : Type) : Type := mkBoxMap {
  boxes : TodoApp -> gmap Z V;
  with_boxes : gmap Z V -> TodoApp -> TodoApp
}.
Arguments boxes {V} _ _.
Arguments with_boxes {V} _ _ _.

Definition self_todos : BoxMap string :=
  {| boxes := todos; with_boxes := set_todos |}.

Definition self_completed : BoxMap bool :=
  {| boxes := completed; with_boxes := set_completed |}.

(** [key in box_map] *)
Definition box_contains {V} (b : BoxMap V) (key : Z) : Contract bool :=
  fun s => Some (bool_decide (is_Some (boxes b s !! key)), s).

(** [box_map[key]]: fails when the box does not exist. *)
Definition box_get {V} (b : BoxMap V) (key : Z) : Contract V :=
  fun s => match boxes b s !! key with
           | Some v => Some (v, s)
           | None => None
           end.

(** [box_map[key] = v] *)
Definition box_set {V} (b : BoxMap V) (key : Z) (v : V) : Contract unit :=
  fun s => Some (tt, with_boxes b (<[key := v]> (boxes b s)) s).

(** [del box_map[key]]: deleting a box that does not exist is not a failure. *)
Definition box_del {V} (b : BoxMap V) (key : Z) : Contract unit :=
  fun s => Some (tt, with_boxes b (delete key (boxes b s)) s).

(** ** The ABI methods *)

Definition msg_not_found : string := "Todo not found".
Definition msg_completed : string := "Todo marked as completed!".
Definition msg_deleted : string := "Todo deleted successfully!".

Definition create_todo (task : string) : Contract Z :=
  let* current_id := todo_counter_value in
  let* new_id := lift_option (UInt64.add current_id 1) in
  todo_counter_assign new_id ;;
  let todo_id := new_id in
  box_set self_todos todo_id task ;;
  box_set self_completed todo_id false ;;
  ret todo_id.

Definition complete_todo (todo_id : Z) : Contract string :=
  let* present := box_contains self_todos todo_id in
  if negb present then ret msg_not_found
  else
    box_set self_completed todo_id true ;;
    ret msg_completed.

Definition get_todo (todo_id : Z) : Contract string :=
  let* present := box_contains self_todos todo_id in
  if negb present then ret msg_not_found
  else box_get self_todos todo_id.

Definition is_completed (todo_id : Z) : Contract bool :=
  let* present := box_contains self_completed todo_id in
  if negb present then ret false
  else box_get self_completed todo_id.

Definition get_total_todos : Contract Z :=
  let* n := todo_counter_value in
  ret n.

Definition delete_todo (todo_id : Z) : Contract string :=
  let* present := box_contains self_todos todo_id in
  if negb present then ret msg_not_found
  else
    box_del self_todos todo_id ;;
    box_del self_completed todo_id ;;
    ret msg_deleted.

(** ** Calls, transactions and executions *)

(** What an ABI method hands back to the caller. *)
Inductive Value : Type :=
| VUInt64 (n : Z)
| VString (t : string)
| VBool (b : bool).

Inductive Call : Type :=
| CreateTodo (task : string)
| CompleteTodo (todo_id : Z)
| GetTodo (todo_id : Z)
| IsCompleted (todo_id : Z)
| GetTotalTodos
| DeleteTodo (todo_id : Z).

#[global] Instance Call_eq_dec : EqDecision Call.
Proof. solve_decision. Defined.

Definition returning {A} (f : A -> Value) (c : Contract A) : Contract Value :=
  let* a := c in ret (f a).

(** The ARC4 router: one method per selector. *)
Definition dispatch (c : Call) : Contract Value :=
  match c with
  | CreateTodo task => returning VUInt64 (create_todo task)
  | CompleteTodo todo_id => returning VString (complete_todo todo_id)
  | GetTodo todo_id => returning VString (get_todo todo_id)
  | IsCompleted todo_id => returning VBool (is_completed todo_id)
  | GetTotalTodos => returning VUInt64 get_total_todos
  | DeleteTodo todo_id => returning VString (delete_todo todo_id)
  end.

(** One application call: a failed call returns nothing and leaves the
    storage as it found it. *)
Definition transact (c : Call) (s : TodoApp) : option Value * TodoApp :=
  match dispatch c s with
  | Some (v, s') => (Some v, s')
  | None => (None, s)
  end.

Definition Event : Type := Call * option Value.

(** A sequence of calls, with the log of what each one returned. *)
Fixpoint run (cs : list Call) (s : TodoApp) : list Event * TodoApp :=
  match cs with
  | [] => ([], s)
  | c :: cs' =>
      let '(v, s1) := transact c s in
      let '(evs, s2) := run cs' s1 in
      ((c, v) :: evs, s2)
  end.

Definition reachable (s : TodoApp) : Prop :=
  exists cs, (run cs init).2 = s.

(** The ids handed out by the [create_todo] calls of a log, in order. *)
Fixpoint created_ids (evs : list Event) : list Z :=
  match evs with
  | [] => []
  | (CreateTodo _, Some (VUInt64 n)) :: evs' => n :: created_ids evs'
  | _ :: evs' => created_ids evs'
  end.

(** The ids whose [delete_todo] call reported success. *)
Fixpoint deleted_ids (evs : list Event) : list Z :=
  match evs with
  | [] => []
  | (DeleteTodo n, Some (VString t)) :: evs' =>
      if String.eqb t msg_deleted then n :: deleted_ids evs'
      else deleted_ids evs'
  | _ :: evs' => deleted_ids evs'
  end.

(** The ids [first], [first + 1], ... ([n] of them). *)
Fixpoint ids_from (first : Z) (n : nat) : list Z :=
  match n with
  | O => []
  | S n' => first :: ids_from (first + 1) n'
  end.

(** The scenario of the specification, section 8. *)
Definition scenario : list Call :=
  [ CreateTodo "Buy milk"; CreateTodo "Walk dog"; CompleteTodo 1;
    IsCompleted 1; IsCompleted 2; GetTodo 2; DeleteTodo 1; GetTodo 1;
    GetTotalTodos ].

(** A storage whose counter sits at the top of the 64-bit range. *)
Definition full : TodoApp :=
  {| todo_counter := UInt64.max_value; todos := ∅; completed := ∅ |}.

(** What every execution from [init] maintains, between the log of the calls
    made so far and the storage they left. *)
Record consistent (evs : list Event) (s : TodoApp) : Prop := mkConsistent {
  counter_in_range : UInt64.in_range (todo_counter s);
  created_so_far : created_ids evs = ids_from 1 (Z.to_nat (todo_counter s));
  same_keys : dom (todos s) =@{gset Z} dom (completed s);
  keys_live : forall id,
    id ∈ dom (todos s) <-> id ∈ created_ids evs /\ id ∉ deleted_ids evs;
  deleted_were_created : forall id,
    id ∈ deleted_ids evs -> id ∈ created_ids evs
}.

(** The ids whose [complete_todo] call reported success. *)
Fixpoint completed_ids (evs : list Event) : list Z :=
  match evs with
  | [] => []
  | (CompleteTodo n, Some (VString t)) :: evs' =>
      if String.eqb t msg_completed then n :: completed_ids evs'
      else completed_ids evs'
  | _ :: evs' => completed_ids evs'
  end.

(** The ids handed out by the [create_todo] calls of a log, each with the
    task it was created for. *)
Fixpoint created_tasks (evs : list Event) : list (Z * string) :=
  match evs with
  | [] => []
  | (CreateTodo task, Some (VUInt64 n)) :: evs' =>
      (n, task) :: created_tasks evs'
  | _ :: evs' => created_tasks evs'
  end.

(** Two calls commute on a storage: either order leaves the same storage,
    and each call returns the same value whether it goes first or second. *)
Definition commute (a b : Call) (s : TodoApp) : Prop :=
  (transact b (transact a s).2).2 = (transact a (transact b s).2).2
  /\ (transact a (transact b s).2).1 = (transact a s).1
  /\ (transact b (transact a s).2).1 = (transact b s).1.

(** As many creates in a row as the counter has room for. *)
Definition fill : list Call :=
  map CreateTodo (repeat "" (Z.to_nat UInt64.max_value)).

(** ** Examples *)

Example scenario_returns :
  map snd (run scenario init).1
  = [ Some (VUInt64 1); Some (VUInt64 2);
      Some (VString "Todo marked as completed!");
      Some (VBool true); Some (VBool false); Some (VString "Walk dog");
      Some (VString "Todo deleted successfully!");
      Some (VString "Todo not found"); Some (VUInt64 2) ].
Proof. vm_compute. reflexivity. Qed.

Example scenario_storage :
  (run scenario init).2
  = {| todo_counter := 2;
       todos := {[ 2 := "Walk dog" ]};
       completed := {[ 2 := false ]} |}.
Proof. vm_compute. reflexivity. Qed.

(** ** What each method computes *)

Section Methods.

Variable s : TodoApp.

Lemma uint64_add_Some a b :
  a + b <= UInt64.max_value -> UInt64.add a b = Some (a + b).
Proof.
  intros H. unfold UInt64.add.
  destruct (Z.leb_spec (a + b) UInt64.max_value); [reflexivity | lia].
Qed.

Lemma uint64_add_None a b :
  UInt64.max_value < a + b -> UInt64.add a b = None.
Proof.
  intros H. unfold UInt64.add.
  destruct (Z.leb_spec (a + b) UInt64.max_value); [lia | reflexivity].
Qed.

Lemma create_todo_ok task :
  todo_counter s < UInt64.max_value ->
  create_todo task s
  = Some (todo_counter s + 1,
          {| todo_counter := todo_counter s + 1;
             todos := <[todo_counter s + 1 := task]> (todos s);
             completed := <[todo_counter s + 1 := false]> (completed s) |}).
Proof.
  intros H. unfold create_todo, bind, todo_counter_value, lift_option.
  rewrite uint64_add_Some by lia. reflexivity.
Qed.

Lemma create_todo_overflow task :
  UInt64.max_value <= todo_counter s -> create_todo task s = None.
Proof.
  intros H. unfold create_todo, bind, todo_counter_value, lift_option.
  rewrite uint64_add_None by lia. reflexivity.
Qed.

Lemma complete_todo_missing todo_id :
  todos s !! todo_id = None ->
  complete_todo todo_id s = Some (msg_not_found, s).
Proof.
  intros H. unfold complete_todo, bind, box_contains. cbn.
  rewrite H. reflexivity.
Qed.

Lemma complete_todo_present todo_id task :
  todos s !! todo_id = Some task ->
  complete_todo todo_id s
  = Some (msg_completed,
          set_completed (<[todo_id := true]> (completed s)) s).
Proof.
  intros H. unfold complete_todo, bind, box_contains. cbn.
  rewrite H. reflexivity.
Qed.

Lemma get_todo_missing todo_id :
  todos s !! todo_id = None -> get_todo todo_id s = Some (msg_not_found, s).
Proof.
  intros H. unfold get_todo, bind, box_contains. cbn.
  rewrite H. reflexivity.
Qed.

Lemma get_todo_present todo_id task :
  todos s !! todo_id = Some task -> get_todo todo_id s = Some (task, s).
Proof.
  intros H. unfold get_todo, bind, box_contains, box_get. cbn.
  rewrite H. cbn. rewrite H. reflexivity.
Qed.

Lemma is_completed_missing todo_id :
  completed s !! todo_id = None -> is_completed todo_id s = Some (false, s).
Proof.
  intros H. unfold is_completed, bind, box_contains. cbn.
  rewrite H. reflexivity.
Qed.

Lemma is_completed_present todo_id b :
  completed s !! todo_id = Some b -> is_completed todo_id s = Some (b, s).
Proof.
  intros H. unfold is_completed, bind, box_contains, box_get. cbn.
  rewrite H. cbn. rewrite H. reflexivity.
Qed.

Lemma get_total_todos_eq : get_total_todos s = Some (todo_counter s, s).
Proof. reflexivity. Qed.

Lemma delete_todo_missing todo_id :
  todos s !! todo_id = None ->
  delete_todo todo_id s = Some (msg_not_found, s).
Proof.
  intros H. unfold delete_todo, bind, box_contains. cbn.
  rewrite H. reflexivity.
Qed.

Lemma delete_todo_present todo_id task :
  todos s !! todo_id = Some task ->
  delete_todo todo_id s
  = Some (msg_deleted,
          {| todo_counter := todo_counter s;
             todos := delete todo_id (todos s);
             completed := delete todo_id (completed s) |}).
Proof.
  intros H. unfold delete_todo, bind, box_contains. cbn.
  rewrite H. reflexivity.
Qed.

End Methods.

Lemma create_todo_inv (s : TodoApp) (task : string) (id : Z) (s' : TodoApp) :
  create_todo task s = Some (id, s') ->
  todo_counter s < UInt64.max_value
  /\ id = todo_counter s + 1
  /\ s' = {| todo_counter := todo_counter s + 1;
             todos := <[todo_counter s + 1 := task]> (todos s);
             completed := <[todo_counter s + 1 := false]> (completed s) |}.
Proof.
  intros H.
  destruct (Z_lt_le_dec (todo_counter s) UInt64.max_value) as [Hlt | Hge].
  - rewrite create_todo_ok in H by exact Hlt.
    injection H as <- <-. repeat split. exact Hlt.
  - rewrite create_todo_overflow in H by exact Hge. discriminate.
Qed.

Lemma create_todo_stores (s : TodoApp) (task : string) (id : Z) (s' : TodoApp) :
  create_todo task s = Some (id, s') ->
  todos s' !! id = Some task /\ completed s' !! id = Some false.
Proof.
  intros H. apply create_todo_inv in H as (_ & -> & ->).
  cbn. split; apply lookup_insert_eq.
Qed.

(** ** create_todo *)

(** C1, as amended: in every storage whose counter is below the largest
    64-bit value, and for every task text (the empty one included),
    [create_todo] returns [counter + 1], stores that as the new counter,
    binds the new id to the task in [todos] and to [False] in [completed],
    and leaves every other box as it was. *)
Theorem create_todo_spec (s : TodoApp) (task : string) :
  todo_counter s < UInt64.max_value ->
  let id := todo_counter s + 1 in
  exists s',
    create_todo task s = Some (id, s')
    /\ todo_counter s' = id
    /\ todos s' = <[id := task]> (todos s)
    /\ completed s' = <[id := false]> (completed s)
    /\ (forall j, j <> id ->
          todos s' !! j = todos s !! j /\ completed s' !! j = completed s !! j).
Proof.
  intros Hlt id. eexists. split; [apply create_todo_ok; exact Hlt |].
  cbn. do 3 (split; [reflexivity |]).
  intros j Hj. split; apply lookup_insert_ne; intros E; apply Hj; symmetry; exact E.
Qed.

Lemma create_todo_spec_witness :
  todo_counter init < UInt64.max_value
  /\ exists s',
       create_todo "" init = Some (1, s')
       /\ todo_counter s' = 1
       /\ todos s' = <[1 := ""]> (todos init)
       /\ completed s' = <[1 := false]> (completed init)
       /\ (forall j, j <> 1 ->
             todos s' !! j = todos init !! j
             /\ completed s' !! j = completed init !! j).
Proof.
  assert (H : todo_counter init < UInt64.max_value) by (vm_compute; reflexivity).
  split; [exact H | exact (create_todo_spec init "" H)].
Defined.

(** ** complete_todo *)

(** C3: on an id with no text box, [complete_todo] answers "Todo not found"
    and leaves the storage alone; otherwise it sets the completion flag,
    answers "Todo marked as completed!", keeps the counter and the texts,
    and a second call gives the same answer and the same storage. *)
Theorem complete_todo_spec (s : TodoApp) (todo_id : Z) :
  (todos s !! todo_id = None ->
     complete_todo todo_id s = Some ("Todo not found", s))
  /\ (is_Some (todos s !! todo_id) ->
        exists s',
          complete_todo todo_id s = Some ("Todo marked as completed!", s')
          /\ completed s' = <[todo_id := true]> (completed s)
          /\ todos s' = todos s
          /\ todo_counter s' = todo_counter s
          /\ complete_todo todo_id s' = Some ("Todo marked as completed!", s')).
Proof.
  split.
  - apply complete_todo_missing.
  - intros [task Htask].
    exists (set_completed (<[todo_id := true]> (completed s)) s).
    split; [eapply complete_todo_present; exact Htask |].
    do 3 (split; [reflexivity |]).
    rewrite (complete_todo_present _ todo_id task) by exact Htask.
    unfold set_completed. cbn. rewrite insert_insert_eq. reflexivity.
Qed.

Lemma complete_todo_spec_witness :
  todos init !! 7 = None
  /\ complete_todo 7 init = Some ("Todo not found", init)
  /\ is_Some (todos (run scenario init).2 !! 2)
  /\ exists s',
       complete_todo 2 (run scenario init).2
       = Some ("Todo marked as completed!", s')
       /\ completed s' = <[2 := true]> (completed (run scenario init).2)
       /\ todos s' = todos (run scenario init).2
       /\ todo_counter s' = todo_counter (run scenario init).2
       /\ complete_todo 2 s' = Some ("Todo marked as completed!", s').
Proof.
  assert (H1 : todos init !! 7 = None) by reflexivity.
  assert (H2 : is_Some (todos (run scenario init).2 !! 2))
    by (exists "Walk dog"; vm_compute; reflexivity).
  split; [exact H1 |].
  split; [exact (proj1 (complete_todo_spec init 7) H1) |].
  split; [exact H2 |].
  exact (proj2 (complete_todo_spec (run scenario init).2 2) H2).
Defined.

(** ** get_todo *)

(** C4: [get_todo] answers "Todo not found" on an id with no text box and
    the stored text itself otherwise, and never changes the storage; in
    particular the id returned by [create_todo x] reads back as [x]. *)
Theorem get_todo_spec (s : TodoApp) (todo_id : Z) :
  (todos s !! todo_id = None ->
     get_todo todo_id s = Some ("Todo not found", s))
  /\ (forall task, todos s !! todo_id = Some task ->
        get_todo todo_id s = Some (task, s))
  /\ (forall x id s', create_todo x s = Some (id, s') ->
        get_todo id s' = Some (x, s')).
Proof.
  split; [apply get_todo_missing |].
  split; [intros task; apply get_todo_present |].
  intros x id s' H. apply get_todo_present.
  exact (proj1 (create_todo_stores _ _ _ _ H)).
Qed.

Lemma get_todo_spec_witness :
  todos init !! 5 = None
  /\ get_todo 5 init = Some ("Todo not found", init)
  /\ create_todo "x" init = Some (1, set_completed {[1 := false]}
                                       (set_todos {[1 := "x"]}
                                          (set_todo_counter 1 init)))
  /\ get_todo 1 (set_completed {[1 := false]}
                   (set_todos {[1 := "x"]} (set_todo_counter 1 init)))
     = Some ("x", set_completed {[1 := false]}
                    (set_todos {[1 := "x"]} (set_todo_counter 1 init))).
Proof.
  assert (H1 : todos init !! 5 = None) by reflexivity.
  assert (H2 : create_todo "x" init
               = Some (1, set_completed {[1 := false]}
                            (set_todos {[1 := "x"]} (set_todo_counter 1 init))))
    by reflexivity.
  split; [exact H1 |].
  split; [exact (proj1 (get_todo_spec init 5) H1) |].
  split; [exact H2 |].
  exact (proj2 (proj2 (get_todo_spec init 5)) "x" 1 _ H2).
Defined.

(** ** delete_todo *)

(** C6: on an id with no text box, [delete_todo] answers "Todo not found"
    and leaves the storage alone; otherwise it removes the id from both box
    maps, answers "Todo deleted successfully!" and keeps the counter.  So
    [get_total_todos] is the same before and after any delete, and reading
    the deleted id gives "Todo not found". *)
Theorem delete_todo_spec (s : TodoApp) (todo_id : Z) :
  (todos s !! todo_id = None ->
     delete_todo todo_id s = Some ("Todo not found", s))
  /\ (is_Some (todos s !! todo_id) ->
        exists s',
          delete_todo todo_id s = Some ("Todo deleted successfully!", s')
          /\ todos s' = delete todo_id (todos s)
          /\ completed s' = delete todo_id (completed s)
          /\ todo_counter s' = todo_counter s
          /\ get_todo todo_id s' = Some ("Todo not found", s'))
  /\ (exists msg s',
        delete_todo todo_id s = Some (msg, s')
        /\ get_total_todos s' = Some (todo_counter s, s')
        /\ get_total_todos s = Some (todo_counter s, s)).
Proof.
  split; [apply delete_todo_missing |]. split.
  - intros [task Htask]. eexists.
    split; [eapply delete_todo_present; exact Htask |].
    do 3 (split; [reflexivity |]).
    apply get_todo_missing. cbn. apply lookup_delete_eq.
  - destruct (todos s !! todo_id) as [task |] eqn:Htask.
    + do 2 eexists. split; [eapply delete_todo_present; exact Htask |].
      split; reflexivity.
    + do 2 eexists. split; [apply delete_todo_missing; exact Htask |].
      split; reflexivity.
Qed.

Lemma delete_todo_spec_witness :
  todos init !! 3 = None
  /\ delete_todo 3 init = Some ("Todo not found", init)
  /\ is_Some (todos (run scenario init).2 !! 2)
  /\ exists s',
       delete_todo 2 (run scenario init).2
       = Some ("Todo deleted successfully!", s')
       /\ todos s' = delete 2 (todos (run scenario init).2)
       /\ completed s' = delete 2 (completed (run scenario init).2)
       /\ todo_counter s' = todo_counter (run scenario init).2
       /\ get_todo 2 s' = Some ("Todo not found", s').
Proof.
  assert (H1 : todos init !! 3 = None) by reflexivity.
  assert (H2 : is_Some (todos (run scenario init).2 !! 2))
    by (exists "Walk dog"; vm_compute; reflexivity).
  split; [exact H1 |].
  split; [exact (proj1 (delete_todo_spec init 3) H1) |].
  split; [exact H2 |].
  exact (proj1 (proj2 (delete_todo_spec (run scenario init).2 2)) H2).
Defined.

(** ** The not-found message is an ordinary string *)

(** C9: once [create_todo "Todo not found"] has returned an id, [get_todo]
    on that existing id returns the very string that [get_todo] returns on
    any id that has no text box. *)
Theorem not_found_indistinguishable (s : TodoApp) (id : Z) (s' : TodoApp) :
  create_todo "Todo not found" s = Some (id, s') ->
  is_Some (todos s' !! id)
  /\ get_todo id s' = Some ("Todo not found", s')
  /\ (forall missing, todos s' !! missing = None ->
        get_todo missing s' = get_todo id s').
Proof.
  intros Hcreate.
  pose proof (proj1 (create_todo_stores _ _ _ _ Hcreate)) as Hbox.
  assert (Hread : get_todo id s' = Some ("Todo not found", s'))
    by (apply get_todo_present; exact Hbox).
  split; [eexists; exact Hbox |]. split; [exact Hread |].
  intros missing Hmissing. rewrite Hread. apply get_todo_missing, Hmissing.
Qed.

Lemma not_found_indistinguishable_witness :
  create_todo "Todo not found" init
  = Some (1, set_completed {[1 := false]}
               (set_todos {[1 := "Todo not found"]} (set_todo_counter 1 init)))
  /\ get_todo 1 (set_completed {[1 := false]}
                   (set_todos {[1 := "Todo not found"]}
                      (set_todo_counter 1 init)))
     = get_todo 2 (set_completed {[1 := false]}
                     (set_todos {[1 := "Todo not found"]}
                        (set_todo_counter 1 init))).
Proof.
  assert (H : create_todo "Todo not found" init
              = Some (1, set_completed {[1 := false]}
                           (set_todos {[1 := "Todo not found"]}
                              (set_todo_counter 1 init))))
    by reflexivity.
  split; [exact H |].
  symmetry.
  exact (proj2 (proj2 (not_found_indistinguishable _ _ _ H)) 2 eq_refl).
Defined.

(** ** Logs and executions *)

Lemma run_app (cs1 cs2 : list Call) (s : TodoApp) :
  run (cs1 ++ cs2) s
  = ((run cs1 s).1 ++ (run cs2 (run cs1 s).2).1, (run cs2 (run cs1 s).2).2).
Proof.
  revert s. induction cs1 as [| c cs1 IH]; intros s; cbn.
  - destruct (run cs2 s); reflexivity.
  - destruct (transact c s) as [v s1]. rewrite IH.
    destruct (run cs1 s1) as [evs1 s2]. cbn.
    destruct (run cs2 s2); reflexivity.
Qed.

Lemma run_snoc (cs : list Call) (c : Call) (s : TodoApp) :
  run (cs ++ [c]) s
  = ((run cs s).1 ++ [(c, (transact c (run cs s).2).1)],
     (transact c (run cs s).2).2).
Proof.
  rewrite run_app. cbn. destruct (transact c (run cs s).2); reflexivity.
Qed.

Lemma created_ids_app (evs1 evs2 : list Event) :
  created_ids (evs1 ++ evs2) = created_ids evs1 ++ created_ids evs2.
Proof.
  induction evs1 as [| [c v] evs1 IH]; [reflexivity |].
  cbn. destruct c; try exact IH.
  destruct v as [[n | t | b] |]; try exact IH.
  cbn. f_equal. exact IH.
Qed.

Lemma deleted_ids_app (evs1 evs2 : list Event) :
  deleted_ids (evs1 ++ evs2) = deleted_ids evs1 ++ deleted_ids evs2.
Proof.
  induction evs1 as [| [c v] evs1 IH]; [reflexivity |].
  cbn. destruct c; try exact IH.
  destruct v as [[n | t | b] |]; try exact IH.
  destruct (String.eqb t msg_deleted); [| exact IH].
  cbn. f_equal. exact IH.
Qed.

Lemma ids_from_snoc (first : Z) (n : nat) :
  ids_from first (S n) = ids_from first n ++ [first + Z.of_nat n].
Proof.
  revert first. induction n as [| n IH]; intros first.
  - cbn. f_equal. lia.
  - change (ids_from first (S (S n)))
      with (first :: ids_from (first + 1) (S n)).
    rewrite IH. cbn. do 2 f_equal. f_equal. lia.
Qed.

Lemma elem_of_ids_from (first : Z) (n : nat) (x : Z) :
  x ∈ ids_from first n <-> first <= x < first + Z.of_nat n.
Proof.
  revert first. induction n as [| n IH]; intros first.
  - cbn. rewrite elem_of_nil. lia.
  - cbn [ids_from]. rewrite elem_of_cons, IH. lia.
Qed.

Lemma length_ids_from (first : Z) (n : nat) : length (ids_from first n) = n.
Proof.
  revert first. induction n as [| n IH]; intros first; cbn; [| rewrite IH];
    reflexivity.
Qed.

Lemma NoDup_ids_from (first : Z) (n : nat) : NoDup (ids_from first n).
Proof.
  revert first. induction n as [| n IH]; intros first; cbn.
  - constructor.
  - constructor; [| apply IH]. rewrite elem_of_ids_from. lia.
Qed.

(** *** What a transaction does, call by call *)

Lemma transact_create_ok (s : TodoApp) (task : string) :
  todo_counter s < UInt64.max_value ->
  transact (CreateTodo task) s
  = (Some (VUInt64 (todo_counter s + 1)),
     {| todo_counter := todo_counter s + 1;
        todos := <[todo_counter s + 1 := task]> (todos s);
        completed := <[todo_counter s + 1 := false]> (completed s) |}).
Proof.
  intros H. unfold transact, dispatch, returning, bind.
  rewrite create_todo_ok by exact H. reflexivity.
Qed.

Lemma transact_create_overflow (s : TodoApp) (task : string) :
  UInt64.max_value <= todo_counter s ->
  transact (CreateTodo task) s = (None, s).
Proof.
  intros H. unfold transact, dispatch, returning, bind.
  rewrite create_todo_overflow by exact H. reflexivity.
Qed.

Lemma transact_complete (s : TodoApp) (todo_id : Z) :
  transact (CompleteTodo todo_id) s
  = match todos s !! todo_id with
    | Some _ => (Some (VString msg_completed),
                 set_completed (<[todo_id := true]> (completed s)) s)
    | None => (Some (VString msg_not_found), s)
    end.
Proof.
  unfold transact, dispatch, returning, bind.
  destruct (todos s !! todo_id) as [task |] eqn:H.
  - rewrite (complete_todo_present _ _ _ H). reflexivity.
  - rewrite (complete_todo_missing _ _ H). reflexivity.
Qed.

Lemma transact_get (s : TodoApp) (todo_id : Z) :
  transact (GetTodo todo_id) s
  = (Some (VString (default msg_not_found (todos s !! todo_id))), s).
Proof.
  unfold transact, dispatch, returning, bind.
  destruct (todos s !! todo_id) as [task |] eqn:H.
  - rewrite (get_todo_present _ _ _ H). reflexivity.
  - rewrite (get_todo_missing _ _ H). reflexivity.
Qed.

Lemma transact_is_completed (s : TodoApp) (todo_id : Z) :
  transact (IsCompleted todo_id) s
  = (Some (VBool (default false (completed s !! todo_id))), s).
Proof.
  unfold transact, dispatch, returning, bind.
  destruct (completed s !! todo_id) as [b |] eqn:H.
  - rewrite (is_completed_present _ _ _ H). reflexivity.
  - rewrite (is_completed_missing _ _ H). reflexivity.
Qed.

Lemma transact_total (s : TodoApp) :
  transact GetTotalTodos s = (Some (VUInt64 (todo_counter s)), s).
Proof. reflexivity. Qed.

Lemma transact_delete (s : TodoApp) (todo_id : Z) :
  transact (DeleteTodo todo_id) s
  = match todos s !! todo_id with
    | Some _ => (Some (VString msg_deleted),
                 {| todo_counter := todo_counter s;
                    todos := delete todo_id (todos s);
                    completed := delete todo_id (completed s) |})
    | None => (Some (VString msg_not_found), s)
    end.
Proof.
  unfold transact, dispatch, returning, bind.
  destruct (todos s !! todo_id) as [task |] eqn:H.
  - rewrite (delete_todo_present _ _ _ H). reflexivity.
  - rewrite (delete_todo_missing _ _ H). reflexivity.
Qed.

(** No call ever lowers the counter, whatever the storage. *)
Lemma transact_counter_mono (c : Call) (s : TodoApp) :
  todo_counter s <= todo_counter (transact c s).2.
Proof.
  destruct c as [task | id | id | id | | id].
  - destruct (Z_lt_le_dec (todo_counter s) UInt64.max_value) as [Hlt | Hge].
    + rewrite transact_create_ok by exact Hlt. cbn. lia.
    + rewrite transact_create_overflow by exact Hge. cbn. lia.
  - rewrite transact_complete. destruct (todos s !! id); cbn; lia.
  - rewrite transact_get. cbn. lia.
  - rewrite transact_is_completed. cbn. lia.
  - rewrite transact_total. cbn. lia.
  - rewrite transact_delete. destruct (todos s !! id); cbn; lia.
Qed.

(** *** The execution invariant *)

Lemma consistent_init : consistent [] init.
Proof.
  constructor; cbn.
  - split; vm_compute; discriminate.
  - reflexivity.
  - rewrite !dom_empty_L. reflexivity.
  - intros id. rewrite dom_empty_L, elem_of_empty, elem_of_nil. tauto.
  - intros id. rewrite elem_of_nil. tauto.
Qed.

(** A call that neither creates nor deletes leaves the log's id lists alone
    and, as long as it keeps counter and key sets, the invariant too. *)
Lemma consistent_quiet (evs : list Event) (e : Event) (s s' : TodoApp) :
  created_ids [e] = [] -> deleted_ids [e] = [] ->
  todo_counter s' = todo_counter s ->
  dom (todos s') = dom (todos s) ->
  dom (completed s') = dom (completed s) ->
  consistent evs s -> consistent (evs ++ [e]) s'.
Proof.
  intros Hc Hd Hn Ht Hk [Hrange Hcreated Hsame Hlive Hdel].
  constructor;
    rewrite ?created_ids_app, ?deleted_ids_app, ?Hc, ?Hd, ?app_nil_r,
      ?Hn, ?Ht, ?Hk; assumption.
Qed.

Lemma consistent_create (evs : list Event) (s : TodoApp) (task : string) :
  todo_counter s < UInt64.max_value ->
  consistent evs s ->
  consistent (evs ++ [(CreateTodo task, Some (VUInt64 (todo_counter s + 1)))])
    {| todo_counter := todo_counter s + 1;
       todos := <[todo_counter s + 1 := task]> (todos s);
       completed := <[todo_counter s + 1 := false]> (completed s) |}.
Proof.
  intros Hlt [[Hlo Hhi] Hcreated Hsame Hlive Hdel].
  assert (Hnew : forall id, id ∈ created_ids evs -> id < todo_counter s + 1).
  { intros id. rewrite Hcreated, elem_of_ids_from. lia. }
  constructor; rewrite ?created_ids_app, ?deleted_ids_app; cbn;
    rewrite ?app_nil_r.
  - unfold UInt64.in_range. lia.
  - replace (Z.to_nat (todo_counter s + 1)) with (S (Z.to_nat (todo_counter s)))
      by lia.
    rewrite ids_from_snoc, Hcreated. do 2 f_equal. lia.
  - rewrite !dom_insert_L, Hsame. reflexivity.
  - intros id. rewrite dom_insert_L, elem_of_union, elem_of_singleton,
      elem_of_app, list_elem_of_singleton, Hlive.
    split.
    + intros [-> | [Hin Hout]]; [| tauto].
      split; [right; reflexivity |].
      intros Hin. apply Hdel, Hnew in Hin. lia.
    + intros [[Hin | ->] Hout]; tauto.
  - intros id Hin. rewrite elem_of_app. left. apply Hdel, Hin.
Qed.

Lemma consistent_delete (evs : list Event) (s : TodoApp) (todo_id : Z) :
  todo_id ∈ dom (todos s) ->
  consistent evs s ->
  consistent (evs ++ [(DeleteTodo todo_id, Some (VString msg_deleted))])
    {| todo_counter := todo_counter s;
       todos := delete todo_id (todos s);
       completed := delete todo_id (completed s) |}.
Proof.
  intros Hin [Hrange Hcreated Hsame Hlive Hdel].
  constructor; rewrite ?created_ids_app, ?deleted_ids_app; cbn;
    rewrite ?app_nil_r.
  - exact Hrange.
  - exact Hcreated.
  - rewrite !dom_delete_L, Hsame. reflexivity.
  - intros id. rewrite dom_delete_L, elem_of_difference, elem_of_singleton,
      elem_of_app, list_elem_of_singleton, Hlive. tauto.
  - intros id. rewrite elem_of_app, list_elem_of_singleton.
    intros [Hold | ->]; [apply Hdel, Hold | apply Hlive, Hin].
Qed.

Ltac quiet_call s Hinv :=
  apply (consistent_quiet _ _ s); try reflexivity; try exact Hinv.

Lemma consistent_step (evs : list Event) (s : TodoApp) (c : Call) :
  consistent evs s ->
  consistent (evs ++ [(c, (transact c s).1)]) (transact c s).2.
Proof.
  intros Hinv. destruct c as [task | id | id | id | | id].
  - destruct (Z_lt_le_dec (todo_counter s) UInt64.max_value) as [Hlt | Hge].
    + rewrite transact_create_ok by exact Hlt. cbn [fst snd].
      apply consistent_create; assumption.
    + rewrite transact_create_overflow by exact Hge. cbn [fst snd].
      quiet_call s Hinv.
  - rewrite transact_complete.
    destruct (todos s !! id) as [task |] eqn:Hbox; cbn [fst snd];
      quiet_call s Hinv.
    cbn. rewrite dom_insert_L.
    apply elem_of_dom_2 in Hbox. rewrite (same_keys _ _ Hinv) in Hbox.
    apply subseteq_union_1_L, singleton_subseteq_l, Hbox.
  - rewrite transact_get. cbn [fst snd]. quiet_call s Hinv.
  - rewrite transact_is_completed. cbn [fst snd]. quiet_call s Hinv.
  - rewrite transact_total. cbn [fst snd]. quiet_call s Hinv.
  - rewrite transact_delete.
    destruct (todos s !! id) as [task |] eqn:Hbox; cbn [fst snd].
    + apply consistent_delete; [eapply elem_of_dom_2; exact Hbox | exact Hinv].
    + quiet_call s Hinv.
Qed.

Lemma consistent_run (cs : list Call) :
  consistent (run cs init).1 (run cs init).2.
Proof.
  induction cs as [| c cs IH] using rev_ind.
  - exact consistent_init.
  - rewrite run_snoc. cbn [fst snd]. apply consistent_step, IH.
Qed.

Lemma run_creates (tasks : list string) (s : TodoApp) :
  todo_counter s + Z.of_nat (length tasks) <= UInt64.max_value ->
  map snd (run (map CreateTodo tasks) s).1
  = map (fun id => Some (VUInt64 id))
      (ids_from (todo_counter s + 1) (length tasks))
  /\ todo_counter (run (map CreateTodo tasks) s).2
     = todo_counter s + Z.of_nat (length tasks).
Proof.
  revert s. induction tasks as [| task tasks IH]; intros s Hroom.
  - cbn. split; [reflexivity | lia].
  - cbn [map run length] in *.
    rewrite transact_create_ok by lia.
    match goal with
    | |- context [run _ ?s1] => specialize (IH s1); destruct (run _ s1)
    end.
    cbn in *. destruct IH as [IHlog IHcounter]; [lia |].
    rewrite IHlog, IHcounter. split; [reflexivity | lia].
Qed.

(** ** Ids are consecutive *)

(** C2: whatever calls are made from the initial storage, the ids returned
    by the [create_todo] calls are 1, 2, 3, ... in that order, and
    [get_total_todos] then returns how many there were; [N] creates in a row
    return exactly the ids 1 to [N] and leave the total at [N]. *)
Theorem created_ids_consecutive (cs : list Call) (tasks : list string) :
  (created_ids (run cs init).1
   = ids_from 1 (length (created_ids (run cs init).1))
   /\ get_total_todos (run cs init).2
      = Some (Z.of_nat (length (created_ids (run cs init).1)),
              (run cs init).2))
  /\ (Z.of_nat (length tasks) <= UInt64.max_value ->
      map snd (run (map CreateTodo tasks) init).1
      = map (fun id => Some (VUInt64 id)) (ids_from 1 (length tasks))
      /\ get_total_todos (run (map CreateTodo tasks) init).2
         = Some (Z.of_nat (length tasks), (run (map CreateTodo tasks) init).2)).
Proof.
  split.
  - destruct (consistent_run cs) as [[Hlo Hhi] Hcreated _ _ _].
    rewrite Hcreated at 2. rewrite length_ids_from.
    split; [exact Hcreated |].
    rewrite get_total_todos_eq. do 2 f_equal.
    rewrite Hcreated, length_ids_from. lia.
  - intros Hroom.
    destruct (run_creates tasks init) as [Hlog Hcounter]; [cbn; lia |].
    split; [exact Hlog |].
    rewrite get_total_todos_eq, Hcounter. reflexivity.
Qed.

Lemma created_ids_consecutive_witness :
  Z.of_nat (length ["a"; ""; "a"]) <= UInt64.max_value
  /\ map snd (run (map CreateTodo ["a"; ""; "a"]) init).1
     = map (fun id => Some (VUInt64 id)) (ids_from 1 3)
  /\ get_total_todos (run (map CreateTodo ["a"; ""; "a"]) init).2
     = Some (3, (run (map CreateTodo ["a"; ""; "a"]) init).2)
  /\ created_ids (run scenario init).1 = [1; 2].
Proof.
  assert (H : Z.of_nat (length ["a"; ""; "a"]) <= UInt64.max_value)
    by (vm_compute; discriminate).
  pose proof (created_ids_consecutive scenario ["a"; ""; "a"]) as [[Hs _] Hn].
  split; [exact H |].
  split; [exact (proj1 (Hn H)) |].
  split; [exact (proj2 (Hn H)) |].
  rewrite Hs. vm_compute. reflexivity.
Defined.

(** ** is_completed *)

(** C5: [is_completed] returns [False] on an id with no completion box and
    the stored flag otherwise.  So it is [False] right after [create_todo]
    returned the id, [True] after [complete_todo] on an existing id, and
    [False], in every storage reached from the initial one, for an id that
    no create returned or that a delete removed. *)
Theorem is_completed_spec (s : TodoApp) (todo_id : Z) (cs : list Call) :
  (completed s !! todo_id = None ->
     is_completed todo_id s = Some (false, s))
  /\ (forall b, completed s !! todo_id = Some b ->
        is_completed todo_id s = Some (b, s))
  /\ (forall task id s', create_todo task s = Some (id, s') ->
        is_completed id s' = Some (false, s'))
  /\ (is_Some (todos s !! todo_id) ->
        exists s', complete_todo todo_id s = Some (msg_completed, s')
                   /\ is_completed todo_id s' = Some (true, s'))
  /\ (todo_id ∉ created_ids (run cs init).1
      \/ todo_id ∈ deleted_ids (run cs init).1 ->
      is_completed todo_id (run cs init).2 = Some (false, (run cs init).2)).
Proof.
  split; [apply is_completed_missing |].
  split; [intros b; apply is_completed_present |].
  split; [| split].
  - intros task id s' H. apply is_completed_present.
    exact (proj2 (create_todo_stores _ _ _ _ H)).
  - intros [task Hbox]. eexists.
    split; [eapply complete_todo_present; exact Hbox |].
    apply is_completed_present. cbn. apply lookup_insert_eq.
  - intros Hgone. apply is_completed_missing, not_elem_of_dom.
    destruct (consistent_run cs) as [_ _ Hsame Hlive _].
    rewrite <- Hsame, Hlive. tauto.
Qed.

Lemma is_completed_spec_witness :
  completed init !! 4 = None
  /\ is_completed 4 init = Some (false, init)
  /\ 1 ∈ deleted_ids (run scenario init).1
  /\ is_completed 1 (run scenario init).2
     = Some (false, (run scenario init).2)
  /\ is_Some (todos (run scenario init).2 !! 2)
  /\ exists s', complete_todo 2 (run scenario init).2 = Some (msg_completed, s')
                /\ is_completed 2 s' = Some (true, s').
Proof.
  assert (H1 : completed init !! 4 = None) by reflexivity.
  assert (H2 : 1 ∈ deleted_ids (run scenario init).1)
    by (vm_compute; apply list_elem_of_here).
  assert (H3 : is_Some (todos (run scenario init).2 !! 2))
    by (exists "Walk dog"; vm_compute; reflexivity).
  split; [exact H1 |].
  split; [exact (proj1 (is_completed_spec init 4 []) H1) |].
  split; [exact H2 |].
  split; [exact (proj2 (proj2 (proj2 (proj2
            (is_completed_spec init 1 scenario)))) (or_intror H2)) |].
  split; [exact H3 |].
  exact (proj1 (proj2 (proj2 (proj2
           (is_completed_spec (run scenario init).2 2 []))))  H3).
Defined.

(** ** The two box maps have the same keys *)

(** C7: the text map and the completion map have the same key set in the
    initial storage, every call preserves that, and so it holds in every
    storage reached from the initial one. *)
Theorem same_key_sets :
  dom (todos init) = dom (completed init)
  /\ (forall s c,
        dom (todos s) = dom (completed s) ->
        dom (todos (transact c s).2) = dom (completed (transact c s).2))
  /\ (forall s, reachable s ->
        dom (todos s) = dom (completed s)
        /\ forall id, todos s !! id = None <-> completed s !! id = None).
Proof.
  split; [reflexivity |]. split.
  - intros s c Hsame. destruct c as [task | id | id | id | | id].
    + destruct (Z_lt_le_dec (todo_counter s) UInt64.max_value) as [Hlt | Hge].
      * rewrite transact_create_ok by exact Hlt. cbn.
        rewrite !dom_insert_L, Hsame. reflexivity.
      * rewrite transact_create_overflow by exact Hge. exact Hsame.
    + rewrite transact_complete.
      destruct (todos s !! id) as [task |] eqn:Hbox; [| exact Hsame].
      cbn. rewrite dom_insert_L. apply elem_of_dom_2 in Hbox.
      rewrite Hsame in Hbox. symmetry.
      rewrite Hsame. apply subseteq_union_1_L, singleton_subseteq_l, Hbox.
    + rewrite transact_get. exact Hsame.
    + rewrite transact_is_completed. exact Hsame.
    + rewrite transact_total. exact Hsame.
    + rewrite transact_delete.
      destruct (todos s !! id) as [task |] eqn:Hbox; [| exact Hsame].
      cbn. rewrite !dom_delete_L, Hsame. reflexivity.
  - intros s [cs <-].
    pose proof (same_keys _ _ (consistent_run cs)) as Hsame.
    split; [exact Hsame |].
    intros id. rewrite <- !not_elem_of_dom, Hsame. tauto.
Qed.

Lemma same_key_sets_witness :
  reachable (run scenario init).2
  /\ dom (todos (run scenario init).2) = dom (completed (run scenario init).2)
  /\ dom (todos init) = dom (completed init)
  /\ dom (todos (transact (CreateTodo "a") init).2)
     = dom (completed (transact (CreateTodo "a") init).2).
Proof.
  assert (H : reachable (run scenario init).2) by (exists scenario; reflexivity).
  assert (H0 : dom (todos init) = dom (completed init)) by reflexivity.
  split; [exact H |].
  split; [exact (proj1 (proj2 (proj2 same_key_sets) _ H)) |].
  split; [exact H0 |].
  exact (proj1 (proj2 same_key_sets) init (CreateTodo "a") H0).
Defined.

(** ** The counter *)

(** C8: no call lowers the counter; in every storage reached from the
    initial one the counter is the number of ids handed out so far, no id
    was handed out twice, and a further [create_todo] returns an id above
    every id returned before, the deleted ones included. *)
Theorem counter_invariants (s0 : TodoApp) (c : Call) (cs : list Call) :
  todo_counter s0 <= todo_counter (transact c s0).2
  /\ todo_counter (run cs init).2
     = Z.of_nat (length (created_ids (run cs init).1))
  /\ NoDup (created_ids (run cs init).1)
  /\ (forall task id s',
        create_todo task (run cs init).2 = Some (id, s') ->
        forall old,
          old ∈ created_ids (run cs init).1 \/ old ∈ deleted_ids (run cs init).1 ->
          old < id).
Proof.
  split; [apply transact_counter_mono |].
  destruct (consistent_run cs) as [[Hlo Hhi] Hcreated _ _ Hdel].
  split; [| split].
  - rewrite Hcreated, length_ids_from. lia.
  - rewrite Hcreated. apply NoDup_ids_from.
  - intros task id s' Hcreate old Hold.
    apply create_todo_inv in Hcreate as (_ & -> & _).
    assert (Hin : old ∈ created_ids (run cs init).1)
      by (destruct Hold as [H | H]; [exact H | apply Hdel, H]).
    rewrite Hcreated, elem_of_ids_from in Hin. lia.
Qed.

Lemma counter_invariants_witness :
  create_todo "Feed cat" (run scenario init).2
  = Some (3, {| todo_counter := 3;
                todos := {[ 2 := "Walk dog"; 3 := "Feed cat" ]};
                completed := {[ 2 := false; 3 := false ]} |})
  /\ 1 ∈ deleted_ids (run scenario init).1
  /\ 1 < 3.
Proof.
  assert (H1 : create_todo "Feed cat" (run scenario init).2
               = Some (3, {| todo_counter := 3;
                             todos := {[ 2 := "Walk dog"; 3 := "Feed cat" ]};
                             completed := {[ 2 := false; 3 := false ]} |}))
    by (vm_compute; reflexivity).
  assert (H2 : 1 ∈ deleted_ids (run scenario init).1)
    by (vm_compute; apply list_elem_of_here).
  split; [exact H1 |]. split; [exact H2 |].
  exact (proj2 (proj2 (proj2 (counter_invariants init GetTotalTodos scenario)))
           _ _ _ H1 1 (or_intror H2)).
Defined.

(** ** The 64-bit bound *)

(** Enough creates in a row bring the counter to the top of the range. *)
Lemma counter_can_fill :
  exists s, reachable s /\ todo_counter s = UInt64.max_value.
Proof.
  set (n := Z.to_nat UInt64.max_value).
  assert (Hn : Z.of_nat n = UInt64.max_value).
  { unfold n. apply Z2Nat.id. discriminate. }
  exists (run (map CreateTodo (repeat "" n)) init).2.
  split; [exists (map CreateTodo (repeat "" n)); reflexivity |].
  destruct (run_creates (repeat "" n) init) as [_ Hcounter].
  - rewrite repeat_length, Hn. change (todo_counter init) with 0.
    apply Z.le_refl.
  - rewrite Hcounter, repeat_length, Hn. reflexivity.
Qed.

(** C1, as stated, fails: with the counter at the largest 64-bit value the
    addition [current_id + UInt64(1)] fails and nothing is created. *)
Lemma create_todo_fails_when_full :
  UInt64.in_range (todo_counter full)
  /\ create_todo "" full = None
  /\ ~ (forall s task, reachable s -> is_Some (create_todo task s)).
Proof.
  split; [| split].
  - split; vm_compute; discriminate.
  - vm_compute. reflexivity.
  - intros Hall. destruct counter_can_fill as (s & Hreach & Htop).
    destruct (Hall s "" Hreach) as [r Hr].
    rewrite create_todo_overflow in Hr by (rewrite Htop; apply Z.le_refl).
    discriminate.
Qed.


Lemma run_counter_mono (cs : list Call) (s : TodoApp) :
  todo_counter s <= todo_counter (run cs s).2.
Proof.
  revert s. induction cs as [| c cs IH]; intros s; [apply Z.le_refl |].
  cbn [run]. pose proof (transact_counter_mono c s) as Hstep.
  destruct (transact c s) as [v s1]. specialize (IH s1).
  destruct (run cs s1) as [evs s2]. cbn in *. lia.
Qed.

Lemma run_fill_counter : todo_counter (run fill init).2 = UInt64.max_value.
Proof.
  unfold fill. set (n := Z.to_nat UInt64.max_value).
  assert (Hn : Z.of_nat n = UInt64.max_value).
  { unfold n. apply Z2Nat.id. discriminate. }
  destruct (run_creates (repeat "" n) init) as [_ Hcounter].
  - rewrite repeat_length, Hn. change (todo_counter init) with 0.
    apply Z.le_refl.
  - rewrite Hcounter, repeat_length, Hn. reflexivity.
Qed.

(** Once the counter is at the top it stays there, and the log gains no
    further id. *)
Lemma created_ids_after_fill (cs : list Call) :
  todo_counter (run (fill ++ cs) init).2 = UInt64.max_value
  /\ created_ids (run (fill ++ cs) init).1 = created_ids (run fill init).1.
Proof.
  assert (Htop : todo_counter (run (fill ++ cs) init).2 = UInt64.max_value).
  { pose proof (counter_in_range _ _ (consistent_run (fill ++ cs))) as [_ Hhi].
    pose proof (run_counter_mono cs (run fill init).2) as Hmono.
    rewrite run_fill_counter in Hmono.
    rewrite run_app in Hhi |- *. cbn [fst snd] in Hhi |- *. lia. }
  split; [exact Htop |].
  rewrite (created_so_far _ _ (consistent_run (fill ++ cs))).
  rewrite (created_so_far _ _ (consistent_run fill)).
  rewrite Htop, run_fill_counter. reflexivity.
Qed.

(** C10, as stated, fails in its clause on id reuse: the storage left by
    [fill] has its counter at [2^64 - 1], every [create_todo] there is
    rejected and leaves the storage as it is, and whatever calls follow, the
    log gains no id and holds none twice.  So "ids are never reused" does
    not hold only below [2^64 - 1]. *)
Lemma ids_not_reused_when_full :
  todo_counter (run fill init).2 = 2 ^ 64 - 1
  /\ (forall task,
        transact (CreateTodo task) (run fill init).2
        = (None, (run fill init).2))
  /\ (forall cs,
        created_ids (run (fill ++ cs) init).1 = created_ids (run fill init).1
        /\ NoDup (created_ids (run (fill ++ cs) init).1))
  /\ ~ (forall cs,
          (forall cs', NoDup (created_ids (run (cs ++ cs') init).1)) ->
          todo_counter (run cs init).2 < 2 ^ 64 - 1).
Proof.
  assert (Hnodup : forall cs, NoDup (created_ids (run cs init).1)).
  { intros cs. rewrite (created_so_far _ _ (consistent_run cs)).
    apply NoDup_ids_from. }
  split; [exact run_fill_counter |].
  split; [| split].
  - intros task. apply transact_create_overflow.
    rewrite run_fill_counter. apply Z.le_refl.
  - intros cs. split; [apply created_ids_after_fill | apply Hnodup].
  - intros Hclaim.
    specialize (Hclaim fill (fun cs' => Hnodup (fill ++ cs'))).
    rewrite run_fill_counter in Hclaim. vm_compute in Hclaim.
    discriminate Hclaim.
Qed.

(** C10, as amended: the counter and the ids are unsigned 64-bit integers.
    For a storage whose counter is in that range, [create_todo] succeeds
    exactly when the counter is below [2^64 - 1], and then the counter grows
    by one and stays in range; at [2^64 - 1], a value the counter can reach,
    the checked sum [counter + 1] fails, the call is rejected and the
    storage is left as it was.  Ids are never reused in any case: whatever
    calls are made from the initial storage, no id is returned twice and
    every returned id is between 1 and [2^64 - 1]. *)
Theorem counter_is_uint64 (s : TodoApp) (task : string) (cs : list Call) :
  UInt64.in_range (todo_counter s) ->
  (todo_counter s < 2 ^ 64 - 1 ->
     exists s',
       create_todo task s = Some (todo_counter s + 1, s')
       /\ todo_counter s' = todo_counter s + 1
       /\ todo_counter s < todo_counter s'
       /\ UInt64.in_range (todo_counter s'))
  /\ (todo_counter s = 2 ^ 64 - 1 ->
        UInt64.add (todo_counter s) 1 = None
        /\ create_todo task s = None
        /\ transact (CreateTodo task) s = (None, s))
  /\ (is_Some (create_todo task s) <-> todo_counter s < 2 ^ 64 - 1)
  /\ (exists top, reachable top /\ todo_counter top = 2 ^ 64 - 1)
  /\ NoDup (created_ids (run cs init).1)
  /\ (forall id, id ∈ created_ids (run cs init).1 -> 1 <= id <= 2 ^ 64 - 1).
Proof.
  intros [Hlo Hhi].
  assert (Hmax : UInt64.max_value = 2 ^ 64 - 1) by reflexivity.
  rewrite <- Hmax. split; [| split; [| split; [| split; [| split]]]].
  - intros Hlt. eexists. split; [apply create_todo_ok; exact Hlt |].
    cbn. split; [reflexivity |]. split; [lia |].
    unfold UInt64.in_range. lia.
  - intros Heq. split; [| split].
    + apply uint64_add_None. lia.
    + apply create_todo_overflow. lia.
    + apply transact_create_overflow. lia.
  - split.
    + intros [[id s'] H]. apply create_todo_inv in H. tauto.
    + intros Hlt. rewrite create_todo_ok by exact Hlt. eexists. reflexivity.
  - exists (run fill init).2.
    split; [exists fill; reflexivity | exact run_fill_counter].
  - rewrite (created_so_far _ _ (consistent_run cs)). apply NoDup_ids_from.
  - intros id Hin.
    pose proof (counter_in_range _ _ (consistent_run cs)) as [Hge Hle].
    rewrite (created_so_far _ _ (consistent_run cs)), elem_of_ids_from in Hin.
    lia.
Qed.

Lemma counter_is_uint64_witness :
  UInt64.in_range (todo_counter full)
  /\ todo_counter full = 2 ^ 64 - 1
  /\ UInt64.add (todo_counter full) 1 = None
  /\ transact (CreateTodo "") full = (None, full)
  /\ UInt64.in_range (todo_counter init)
  /\ todo_counter init < 2 ^ 64 - 1
  /\ is_Some (create_todo "" init)
  /\ NoDup (created_ids (run scenario init).1).
Proof.
  assert (Hf : UInt64.in_range (todo_counter full))
    by (split; vm_compute; discriminate).
  assert (Hi : UInt64.in_range (todo_counter init))
    by (split; vm_compute; discriminate).
  assert (Hfe : todo_counter full = 2 ^ 64 - 1) by reflexivity.
  assert (Hil : todo_counter init < 2 ^ 64 - 1) by reflexivity.
  pose proof (counter_is_uint64 full "" [] Hf) as (_ & Hfull & _).
  pose proof (counter_is_uint64 init "" scenario Hi)
    as (_ & _ & Hinit & _ & Hnodup & _).
  split; [exact Hf |]. split; [exact Hfe |].
  split; [exact (proj1 (Hfull Hfe)) |].
  split; [exact (proj2 (proj2 (Hfull Hfe))) |].
  split; [exact Hi |]. split; [exact Hil |].
  split; [exact (proj2 Hinit Hil) | exact Hnodup].
Defined.

(** * Further properties of the contract *)

(** ** Which calls can fail *)

Lemma transact_rejected (c : Call) (s : TodoApp) :
  dispatch c s = None <-> (transact c s).1 = None.
Proof.
  unfold transact. destruct (dispatch c s) as [[v s'] |]; cbn; split;
    intros H; try reflexivity; discriminate.
Qed.

(** X1: the only call that can fail is [create_todo] with the counter at the
    largest 64-bit value.  The reads [self.todos[todo_id]] and
    [self.completed[todo_id]] sit behind their membership tests, so no other
    method fails in any storage, consistent or not. *)
Theorem only_create_fails (c : Call) (s : TodoApp) :
  dispatch c s = None
  <-> exists task, c = CreateTodo task /\ UInt64.max_value <= todo_counter s.
Proof.
  rewrite transact_rejected. destruct c as [task | id | id | id | | id].
  - destruct (Z_lt_le_dec (todo_counter s) UInt64.max_value) as [Hlt | Hge].
    + rewrite transact_create_ok by exact Hlt. cbn. split; [discriminate |].
      intros (task' & _ & Hfull). lia.
    + rewrite transact_create_overflow by exact Hge. cbn.
      split; [| reflexivity]. intros _. exists task. split; [reflexivity | exact Hge].
  - rewrite transact_complete. destruct (todos s !! id); cbn;
      (split; [discriminate | intros (task & Hc & _); discriminate]).
  - rewrite transact_get. cbn.
    split; [discriminate | intros (task & Hc & _); discriminate].
  - rewrite transact_is_completed. cbn.
    split; [discriminate | intros (task & Hc & _); discriminate].
  - rewrite transact_total. cbn.
    split; [discriminate | intros (task & Hc & _); discriminate].
  - rewrite transact_delete. destruct (todos s !! id); cbn;
      (split; [discriminate | intros (task & Hc & _); discriminate]).
Qed.

Lemma only_create_fails_witness :
  dispatch (CreateTodo "late") full = None
  /\ dispatch (IsCompleted 9) full <> None.
Proof.
  split.
  - apply (proj2 (only_create_fails (CreateTodo "late") full)).
    exists "late". split; [reflexivity | apply Z.le_refl].
  - intros H.
    destruct (proj1 (only_create_fails (IsCompleted 9) full) H)
      as (task & Hc & _).
    discriminate Hc.
Defined.

(** ** Keys in use *)

Lemma consistent_keys_bounded (evs : list Event) (s : TodoApp) (id : Z) :
  consistent evs s -> id ∈ dom (todos s) -> 1 <= id <= todo_counter s.
Proof.
  intros [[Hlo Hhi] Hcreated _ Hlive _] Hin.
  apply Hlive in Hin as [Hin _].
  rewrite Hcreated, elem_of_ids_from in Hin. lia.
Qed.

Lemma reachable_bounded (s : TodoApp) (id : Z) :
  reachable s ->
  is_Some (todos s !! id) \/ is_Some (completed s !! id) ->
  1 <= id <= todo_counter s.
Proof.
  intros [cs <-] Hbox. pose proof (consistent_run cs) as Hinv.
  apply (consistent_keys_bounded _ _ _ Hinv).
  destruct Hbox as [H | H]; [| rewrite (same_keys _ _ Hinv)];
    apply elem_of_dom, H.
Qed.

Lemma reachable_fresh (s : TodoApp) :
  reachable s ->
  todos s !! (todo_counter s + 1) = None
  /\ completed s !! (todo_counter s + 1) = None.
Proof.
  intros Hreach.
  split.
  - destruct (todos s !! (todo_counter s + 1)) as [t |] eqn:H;
      [| reflexivity].
    assert (1 <= todo_counter s + 1 <= todo_counter s)
      by (apply reachable_bounded; [exact Hreach | left; rewrite H; eauto]).
    lia.
  - destruct (completed s !! (todo_counter s + 1)) as [b |] eqn:H;
      [| reflexivity].
    assert (1 <= todo_counter s + 1 <= todo_counter s)
      by (apply reachable_bounded; [exact Hreach | right; rewrite H; eauto]).
    lia.
Qed.

(** X2: in every storage reached from the initial one the counter is a
    64-bit value and every id that has a text box or a completion box lies
    between 1 and the counter; id 0 and ids above the counter are never in
    use. *)
Theorem keys_within_counter (s : TodoApp) (id : Z) :
  reachable s ->
  UInt64.in_range (todo_counter s)
  /\ (is_Some (todos s !! id) \/ is_Some (completed s !! id) ->
      1 <= id <= todo_counter s).
Proof.
  intros Hreach. split; [| apply reachable_bounded; exact Hreach].
  destruct Hreach as [cs <-]. apply (counter_in_range _ _ (consistent_run cs)).
Qed.

Lemma keys_within_counter_witness :
  reachable (run scenario init).2
  /\ is_Some (todos (run scenario init).2 !! 2)
  /\ 1 <= 2 <= todo_counter (run scenario init).2.
Proof.
  assert (H1 : reachable (run scenario init).2) by (exists scenario; reflexivity).
  assert (H2 : is_Some (todos (run scenario init).2 !! 2))
    by (exists "Walk dog"; vm_compute; reflexivity).
  split; [exact H1 |]. split; [exact H2 |].
  exact (proj2 (keys_within_counter _ 2 H1) (or_introl H2)).
Defined.

(** X3: in a storage reached from the initial one, [create_todo] never
    overwrites a record: the id it returns had no box in either map, and
    every text and flag stored before is still there afterwards. *)
Theorem create_never_overwrites
    (s : TodoApp) (task : string) (id : Z) (s' : TodoApp) :
  reachable s ->
  create_todo task s = Some (id, s') ->
  todos s !! id = None
  /\ completed s !! id = None
  /\ (forall j t, todos s !! j = Some t -> todos s' !! j = Some t)
  /\ (forall j b, completed s !! j = Some b -> completed s' !! j = Some b).
Proof.
  intros Hreach Hcreate.
  apply create_todo_inv in Hcreate as (_ & -> & ->).
  destruct (reachable_fresh s Hreach) as [Ht Hc].
  split; [exact Ht |]. split; [exact Hc |]. cbn. split.
  - intros j t Hj. rewrite lookup_insert_ne; [exact Hj |].
    intros <-. rewrite Ht in Hj. discriminate.
  - intros j b Hj. rewrite lookup_insert_ne; [exact Hj |].
    intros <-. rewrite Hc in Hj. discriminate.
Qed.

Lemma create_never_overwrites_witness :
  reachable (run scenario init).2
  /\ create_todo "Feed cat" (run scenario init).2
     = Some (3, {| todo_counter := 3;
                   todos := {[ 2 := "Walk dog"; 3 := "Feed cat" ]};
                   completed := {[ 2 := false; 3 := false ]} |})
  /\ todos (run scenario init).2 !! 3 = None.
Proof.
  assert (H1 : reachable (run scenario init).2) by (exists scenario; reflexivity).
  assert (H2 : create_todo "Feed cat" (run scenario init).2
               = Some (3, {| todo_counter := 3;
                             todos := {[ 2 := "Walk dog"; 3 := "Feed cat" ]};
                             completed := {[ 2 := false; 3 := false ]} |}))
    by (vm_compute; reflexivity).
  split; [exact H1 |]. split; [exact H2 |].
  exact (proj1 (create_never_overwrites _ _ _ _ H1 H2)).
Defined.

(** ** What a call leaves alone *)

(** X4: a stored text never changes.  From a storage reached from the
    initial one, after any single call the text of an existing id is the
    same as before, unless the call is [delete_todo] on that very id, which
    removes it; no method edits a task. *)
Theorem text_is_immutable (s : TodoApp) (c : Call) (id : Z) (t : string) :
  reachable s ->
  todos s !! id = Some t ->
  todos (transact c s).2 !! id
  = if decide (c = DeleteTodo id) then None else Some t.
Proof.
  intros Hreach Hbox. destruct c as [task | j | j | j | | j].
  - rewrite decide_False by discriminate.
    destruct (Z_lt_le_dec (todo_counter s) UInt64.max_value) as [Hlt | Hge].
    + rewrite transact_create_ok by exact Hlt. cbn.
      rewrite lookup_insert_ne; [exact Hbox |].
      intros <-. rewrite (proj1 (reachable_fresh s Hreach)) in Hbox.
      discriminate.
    + rewrite transact_create_overflow by exact Hge. exact Hbox.
  - rewrite decide_False by discriminate. rewrite transact_complete.
    destruct (todos s !! j); exact Hbox.
  - rewrite decide_False by discriminate. rewrite transact_get. exact Hbox.
  - rewrite decide_False by discriminate. rewrite transact_is_completed.
    exact Hbox.
  - rewrite decide_False by discriminate. rewrite transact_total. exact Hbox.
  - rewrite transact_delete. destruct (decide (j = id)) as [-> | Hne].
    + rewrite decide_True by reflexivity. rewrite Hbox. cbn.
      apply lookup_delete_eq.
    + rewrite decide_False by congruence.
      destruct (todos s !! j); [| exact Hbox].
      cbn. rewrite lookup_delete_ne; [exact Hbox | exact Hne].
Qed.

Lemma text_is_immutable_witness :
  reachable (run scenario init).2
  /\ todos (run scenario init).2 !! 2 = Some "Walk dog"
  /\ todos (transact (CompleteTodo 2) (run scenario init).2).2 !! 2
     = Some "Walk dog"
  /\ todos (transact (DeleteTodo 2) (run scenario init).2).2 !! 2 = None.
Proof.
  assert (H1 : reachable (run scenario init).2) by (exists scenario; reflexivity).
  assert (H2 : todos (run scenario init).2 !! 2 = Some "Walk dog")
    by (vm_compute; reflexivity).
  split; [exact H1 |]. split; [exact H2 |].
  split.
  - exact (text_is_immutable _ (CompleteTodo 2) 2 _ H1 H2).
  - exact (text_is_immutable _ (DeleteTodo 2) 2 _ H1 H2).
Defined.

(** X5: completion is one-way.  From a storage reached from the initial
    one, once the flag of an id is [True] no single call sets it back to
    [False]: afterwards it is still [True], unless the call is
    [delete_todo] on that very id, which removes the box. *)
Theorem completion_is_one_way (s : TodoApp) (c : Call) (id : Z) :
  reachable s ->
  completed s !! id = Some true ->
  completed (transact c s).2 !! id
  = if decide (c = DeleteTodo id) then None else Some true.
Proof.
  intros Hreach Hflag.
  assert (Hsame : forall j, todos s !! j = None <-> completed s !! j = None).
  { destruct Hreach as [cs <-]. intros j.
    rewrite <- !not_elem_of_dom, (same_keys _ _ (consistent_run cs)). tauto. }
  destruct c as [task | j | j | j | | j].
  - rewrite decide_False by discriminate.
    destruct (Z_lt_le_dec (todo_counter s) UInt64.max_value) as [Hlt | Hge].
    + rewrite transact_create_ok by exact Hlt. cbn.
      rewrite lookup_insert_ne; [exact Hflag |].
      intros <-. rewrite (proj2 (reachable_fresh s Hreach)) in Hflag.
      discriminate.
    + rewrite transact_create_overflow by exact Hge. exact Hflag.
  - rewrite decide_False by discriminate. rewrite transact_complete.
    destruct (todos s !! j); [| exact Hflag]. cbn.
    destruct (decide (j = id)) as [-> | Hne].
    + apply lookup_insert_eq.
    + rewrite lookup_insert_ne; [exact Hflag | exact Hne].
  - rewrite decide_False by discriminate. rewrite transact_get. exact Hflag.
  - rewrite decide_False by discriminate. rewrite transact_is_completed.
    exact Hflag.
  - rewrite decide_False by discriminate. rewrite transact_total. exact Hflag.
  - rewrite transact_delete. destruct (decide (j = id)) as [-> | Hne].
    + rewrite decide_True by reflexivity.
      destruct (todos s !! id) as [t |] eqn:Hbox.
      * cbn. apply lookup_delete_eq.
      * apply Hsame in Hbox. rewrite Hbox in Hflag. discriminate.
    + rewrite decide_False by congruence.
      destruct (todos s !! j); [| exact Hflag].
      cbn. rewrite lookup_delete_ne; [exact Hflag | exact Hne].
Qed.

Lemma completion_is_one_way_witness :
  reachable (run [CreateTodo "a"; CompleteTodo 1] init).2
  /\ completed (run [CreateTodo "a"; CompleteTodo 1] init).2 !! 1 = Some true
  /\ completed (transact (CreateTodo "b")
                  (run [CreateTodo "a"; CompleteTodo 1] init).2).2 !! 1
     = Some true.
Proof.
  assert (H1 : reachable (run [CreateTodo "a"; CompleteTodo 1] init).2)
    by (exists [CreateTodo "a"; CompleteTodo 1]; reflexivity).
  assert (H2 : completed (run [CreateTodo "a"; CompleteTodo 1] init).2 !! 1
               = Some true) by (vm_compute; reflexivity).
  split; [exact H1 |]. split; [exact H2 |].
  exact (completion_is_one_way _ (CreateTodo "b") 1 H1 H2).
Defined.

(** ** Storage against the log *)

Lemma completed_ids_app (evs1 evs2 : list Event) :
  completed_ids (evs1 ++ evs2) = completed_ids evs1 ++ completed_ids evs2.
Proof.
  induction evs1 as [| [c v] evs1 IH]; [reflexivity |].
  cbn. destruct c; try exact IH.
  destruct v as [[n | t | b] |]; try exact IH.
  destruct (String.eqb t msg_completed); [| exact IH].
  cbn. f_equal. exact IH.
Qed.

Lemma created_tasks_app (evs1 evs2 : list Event) :
  created_tasks (evs1 ++ evs2) = created_tasks evs1 ++ created_tasks evs2.
Proof.
  induction evs1 as [| [c v] evs1 IH]; [reflexivity |].
  cbn. destruct c; try exact IH.
  destruct v as [[n | t | b] |]; try exact IH.
  cbn. f_equal. exact IH.
Qed.

Lemma created_tasks_ids (evs : list Event) (id : Z) (t : string) :
  (id, t) ∈ created_tasks evs -> id ∈ created_ids evs.
Proof.
  induction evs as [| [c v] evs IH]; cbn.
  { intros H. apply elem_of_nil in H. contradiction. }
  destruct c; try exact IH.
  destruct v as [[n | t' | b] |]; try exact IH.
  rewrite !elem_of_cons. intros [Heq | Hin]; [left; congruence | right; auto].
Qed.

(** The four things one call can do to the storage and to the log. *)
Lemma step_shape (c : Call) (s : TodoApp) :
  (exists task,
     todo_counter s < UInt64.max_value
     /\ c = CreateTodo task
     /\ transact c s
        = (Some (VUInt64 (todo_counter s + 1)),
           {| todo_counter := todo_counter s + 1;
              todos := <[todo_counter s + 1 := task]> (todos s);
              completed := <[todo_counter s + 1 := false]> (completed s) |}))
  \/ (exists j t,
        todos s !! j = Some t
        /\ c = CompleteTodo j
        /\ transact c s
           = (Some (VString msg_completed),
              set_completed (<[j := true]> (completed s)) s))
  \/ (exists j t,
        todos s !! j = Some t
        /\ c = DeleteTodo j
        /\ transact c s
           = (Some (VString msg_deleted),
              {| todo_counter := todo_counter s;
                 todos := delete j (todos s);
                 completed := delete j (completed s) |}))
  \/ ((transact c s).2 = s
      /\ created_ids [(c, (transact c s).1)] = []
      /\ created_tasks [(c, (transact c s).1)] = []
      /\ completed_ids [(c, (transact c s).1)] = []
      /\ deleted_ids [(c, (transact c s).1)] = []).
Proof.
  destruct c as [task | j | j | j | | j].
  - destruct (Z_lt_le_dec (todo_counter s) UInt64.max_value) as [Hlt | Hge].
    + left. exists task. rewrite transact_create_ok by exact Hlt. auto.
    + do 3 right. rewrite transact_create_overflow by exact Hge.
      cbn. auto.
  - destruct (todos s !! j) as [t |] eqn:Hbox.
    + right. left. exists j, t. rewrite transact_complete, Hbox. auto.
    + do 3 right. rewrite transact_complete, Hbox. cbn. auto.
  - do 3 right. rewrite transact_get. cbn. auto.
  - do 3 right. rewrite transact_is_completed. cbn. auto.
  - do 3 right. rewrite transact_total. cbn. auto.
  - destruct (todos s !! j) as [t |] eqn:Hbox.
    + right. right. left. exists j, t. rewrite transact_delete, Hbox. auto.
    + do 3 right. rewrite transact_delete, Hbox. cbn. auto.
Qed.

(** Induction along an execution, with the invariant at hand. *)
Lemma run_invariant (P : list Event -> TodoApp -> Prop) :
  P [] init ->
  (forall evs s c,
     consistent evs s -> P evs s ->
     P (evs ++ [(c, (transact c s).1)]) (transact c s).2) ->
  forall cs, P (run cs init).1 (run cs init).2.
Proof.
  intros Hinit Hstep cs. induction cs as [| c cs IH] using rev_ind.
  - exact Hinit.
  - rewrite run_snoc. cbn [fst snd]. apply Hstep; [apply consistent_run | exact IH].
Qed.

Lemma consistent_deleted_bounded (evs : list Event) (s : TodoApp) (id : Z) :
  consistent evs s -> id ∈ created_ids evs \/ id ∈ deleted_ids evs ->
  1 <= id <= todo_counter s.
Proof.
  intros [[Hlo Hhi] Hcreated _ _ Hdel] Hin.
  assert (H : id ∈ created_ids evs) by (destruct Hin; auto).
  rewrite Hcreated, elem_of_ids_from in H. lia.
Qed.

Lemma texts_follow_log (cs : list Call) (id : Z) (t : string) :
  todos (run cs init).2 !! id = Some t
  <-> (id, t) ∈ created_tasks (run cs init).1
      /\ id ∉ deleted_ids (run cs init).1.
Proof.
  revert id t.
  apply (run_invariant (fun evs s => forall id t,
    todos s !! id = Some t
    <-> (id, t) ∈ created_tasks evs /\ id ∉ deleted_ids evs)).
  - intros id t. cbn. rewrite lookup_empty, elem_of_nil.
    split; [discriminate | tauto].
  - intros evs s c Hinv IH id t.
    rewrite created_tasks_app, deleted_ids_app.
    destruct (step_shape c s)
      as [(task & Hlt & -> & ->) | [(j & t' & Hbox & -> & ->)
         | [(j & t' & Hbox & -> & ->) | (-> & _ & -> & _ & ->)]]];
      cbn; rewrite ?app_nil_r.
    + rewrite elem_of_app, list_elem_of_singleton.
      destruct (decide (id = todo_counter s + 1)) as [-> | Hne].
      * rewrite lookup_insert_eq. split.
        -- intros [= ->]. split; [right; reflexivity |].
           intros Hin.
           pose proof (consistent_deleted_bounded _ _ _ Hinv (or_intror Hin)).
           lia.
        -- intros [[Hin | Heq] _]; [| congruence].
           apply created_tasks_ids in Hin.
           pose proof (consistent_deleted_bounded _ _ _ Hinv (or_introl Hin)).
           lia.
      * rewrite lookup_insert_ne by congruence. rewrite IH.
        split; [tauto |]. intros [[Hin | Heq] Hout]; [tauto | congruence].
    + apply IH.
    + rewrite elem_of_app, list_elem_of_singleton.
      destruct (decide (id = j)) as [-> | Hne].
      * rewrite lookup_delete_eq. split; [discriminate | tauto].
      * rewrite lookup_delete_ne by congruence. rewrite IH. tauto.
    + apply IH.
Qed.

(** X6: the text read back is the text created.  After any sequence of
    calls from the initial storage, [get_todo] on an id returns task [t]
    with the box present exactly when some [create_todo t] call returned
    that id and no [delete_todo] has removed it since, whatever other calls
    came in between. *)
Theorem get_todo_returns_created_text (cs : list Call) (id : Z) (t : string) :
  (todos (run cs init).2 !! id = Some t
   <-> (id, t) ∈ created_tasks (run cs init).1
       /\ id ∉ deleted_ids (run cs init).1)
  /\ ((id, t) ∈ created_tasks (run cs init).1 ->
      id ∉ deleted_ids (run cs init).1 ->
      get_todo id (run cs init).2 = Some (t, (run cs init).2)).
Proof.
  split; [apply texts_follow_log |].
  intros Hin Hout. apply get_todo_present, texts_follow_log. tauto.
Qed.

Lemma get_todo_returns_created_text_witness :
  (2, "Walk dog") ∈ created_tasks (run scenario init).1
  /\ (2 ∉ deleted_ids (run scenario init).1)
  /\ get_todo 2 (run scenario init).2
     = Some ("Walk dog", (run scenario init).2).
Proof.
  assert (H1 : (2, "Walk dog") ∈ created_tasks (run scenario init).1)
    by (vm_compute; apply list_elem_of_further, list_elem_of_here).
  assert (H2 : 2 ∉ deleted_ids (run scenario init).1).
  { vm_compute. intros H. apply list_elem_of_singleton in H. discriminate H. }
  split; [exact H1 |]. split; [exact H2 |].
  exact (proj2 (get_todo_returns_created_text scenario 2 "Walk dog") H1 H2).
Defined.

Lemma flags_follow_log (cs : list Call) :
  (forall id, id ∈ completed_ids (run cs init).1 ->
              id ∈ created_ids (run cs init).1)
  /\ (forall id,
        completed (run cs init).2 !! id = Some true
        <-> id ∈ completed_ids (run cs init).1
            /\ id ∉ deleted_ids (run cs init).1).
Proof.
  apply (run_invariant (fun evs s =>
    (forall id, id ∈ completed_ids evs -> id ∈ created_ids evs)
    /\ (forall id, completed s !! id = Some true
                   <-> id ∈ completed_ids evs /\ id ∉ deleted_ids evs))).
  - split; intros id; cbn.
    + rewrite elem_of_nil. tauto.
    + rewrite lookup_empty, elem_of_nil. split; [discriminate | tauto].
  - intros evs s c Hinv [IHsub IH].
    rewrite created_ids_app, completed_ids_app, deleted_ids_app.
    destruct (step_shape c s)
      as [(task & Hlt & -> & ->) | [(j & t' & Hbox & -> & ->)
         | [(j & t' & Hbox & -> & ->) | (-> & -> & _ & -> & ->)]]];
      cbn; rewrite ?app_nil_r.
    + split; intros id.
      * rewrite elem_of_app. auto.
      * destruct (decide (id = todo_counter s + 1)) as [-> | Hne].
        -- rewrite lookup_insert_eq. split; [discriminate |].
           intros [Hin _]. apply IHsub in Hin.
           pose proof (consistent_deleted_bounded _ _ _ Hinv (or_introl Hin)).
           lia.
        -- rewrite lookup_insert_ne by congruence. apply IH.
    + assert (Hlive : j ∈ created_ids evs /\ j ∉ deleted_ids evs)
        by (apply (keys_live _ _ Hinv); eapply elem_of_dom_2; exact Hbox).
      split; intros id; rewrite elem_of_app, list_elem_of_singleton.
      * intros [Hin | ->]; [auto | tauto].
      * destruct (decide (id = j)) as [-> | Hne].
        -- rewrite lookup_insert_eq. tauto.
        -- rewrite lookup_insert_ne by congruence. rewrite IH. tauto.
    + split; [exact IHsub |]. intros id.
      rewrite elem_of_app, list_elem_of_singleton.
      destruct (decide (id = j)) as [-> | Hne].
      * rewrite lookup_delete_eq. split; [discriminate | tauto].
      * rewrite lookup_delete_ne by congruence. rewrite IH. tauto.
    + split; [exact IHsub | exact IH].
Qed.

(** X7: the flag is what the log says.  After any sequence of calls from
    the initial storage, [is_completed] returns [True] for an id exactly
    when some [complete_todo] call on it answered "Todo marked as
    completed!" and no [delete_todo] has removed it since; a
    [complete_todo] that answered "Todo not found" leaves no trace. *)
Theorem is_completed_follows_log (cs : list Call) (id : Z) :
  is_completed id (run cs init).2 = Some (true, (run cs init).2)
  <-> id ∈ completed_ids (run cs init).1
      /\ id ∉ deleted_ids (run cs init).1.
Proof.
  rewrite <- (proj2 (flags_follow_log cs) id).
  destruct (completed (run cs init).2 !! id) as [b |] eqn:Hflag.
  - rewrite (is_completed_present _ _ _ Hflag).
    split; intros H; congruence.
  - rewrite (is_completed_missing _ _ Hflag).
    split; intros H; discriminate.
Qed.

Lemma is_completed_follows_log_witness :
  1 ∈ completed_ids (run [CreateTodo "a"; CompleteTodo 2; CompleteTodo 1] init).1
  /\ (1 ∉ deleted_ids
            (run [CreateTodo "a"; CompleteTodo 2; CompleteTodo 1] init).1)
  /\ is_completed 1 (run [CreateTodo "a"; CompleteTodo 2; CompleteTodo 1] init).2
     = Some (true, (run [CreateTodo "a"; CompleteTodo 2; CompleteTodo 1] init).2)
  /\ (2 ∉ completed_ids
            (run [CreateTodo "a"; CompleteTodo 2; CompleteTodo 1] init).1).
Proof.
  set (cs := [CreateTodo "a"; CompleteTodo 2; CompleteTodo 1]).
  assert (H1 : 1 ∈ completed_ids (run cs init).1)
    by (vm_compute; apply list_elem_of_here).
  assert (H2 : 1 ∉ deleted_ids (run cs init).1).
  { vm_compute. intros H. apply elem_of_nil in H. exact H. }
  assert (H3 : 2 ∉ completed_ids (run cs init).1).
  { vm_compute. intros H. apply list_elem_of_singleton in H. discriminate H. }
  split; [exact H1 |]. split; [exact H2 |].
  split; [| exact H3].
  exact (proj2 (is_completed_follows_log cs 1) (conj H1 H2)).
Defined.

(** ** Ids that are gone *)

(** X8: an id that no create returned, or that a delete removed, stays
    gone.  After any sequence of calls from the initial storage,
    [get_todo], [complete_todo] and [delete_todo] on such an id all answer
    "Todo not found" and leave the storage as it is; a deleted id can be
    neither completed nor deleted again, nor does it come back. *)
Theorem gone_ids_are_not_found (cs : list Call) (id : Z) :
  id ∉ created_ids (run cs init).1 \/ id ∈ deleted_ids (run cs init).1 ->
  get_todo id (run cs init).2 = Some ("Todo not found", (run cs init).2)
  /\ complete_todo id (run cs init).2
     = Some ("Todo not found", (run cs init).2)
  /\ delete_todo id (run cs init).2
     = Some ("Todo not found", (run cs init).2).
Proof.
  intros Hgone.
  assert (Hbox : todos (run cs init).2 !! id = None).
  { apply not_elem_of_dom. rewrite (keys_live _ _ (consistent_run cs)). tauto. }
  split; [apply get_todo_missing, Hbox |].
  split; [apply complete_todo_missing, Hbox | apply delete_todo_missing, Hbox].
Qed.

Lemma gone_ids_are_not_found_witness :
  1 ∈ deleted_ids (run scenario init).1
  /\ complete_todo 1 (run scenario init).2
     = Some ("Todo not found", (run scenario init).2)
  /\ (0 ∉ created_ids (run scenario init).1)
  /\ delete_todo 0 (run scenario init).2
     = Some ("Todo not found", (run scenario init).2).
Proof.
  assert (H1 : 1 ∈ deleted_ids (run scenario init).1)
    by (vm_compute; apply list_elem_of_here).
  assert (H2 : 0 ∉ created_ids (run scenario init).1).
  { vm_compute. intros H. apply elem_of_cons in H as [H | H]; [discriminate H |].
    apply list_elem_of_singleton in H. discriminate H. }
  split; [exact H1 |].
  split; [exact (proj1 (proj2 (gone_ids_are_not_found scenario 1
                                 (or_intror H1)))) |].
  split; [exact H2 |].
  exact (proj2 (proj2 (gone_ids_are_not_found scenario 0 (or_introl H2)))).
Defined.

(** ** How many todos are stored *)

Lemma stored_plus_deleted (cs : list Call) :
  Z.of_nat (size (todos (run cs init).2))
  + Z.of_nat (length (deleted_ids (run cs init).1))
  = todo_counter (run cs init).2.
Proof.
  apply (run_invariant (fun evs s =>
    Z.of_nat (size (todos s)) + Z.of_nat (length (deleted_ids evs))
    = todo_counter s)).
  - reflexivity.
  - intros evs s c Hinv IH. rewrite deleted_ids_app, length_app.
    destruct (step_shape c s)
      as [(task & Hlt & -> & ->) | [(j & t' & Hbox & -> & ->)
         | [(j & t' & Hbox & -> & ->) | (-> & _ & _ & _ & ->)]]];
      cbn [fst snd todos todo_counter set_completed deleted_ids length
           String.eqb msg_deleted].
    + rewrite map_size_insert_None; [cbn; lia |].
      apply not_elem_of_dom. intros Hin.
      pose proof (consistent_keys_bounded _ _ _ Hinv Hin). lia.
    + cbn. lia.
    + rewrite map_size_delete_Some by (rewrite Hbox; eauto).
      assert (size (todos s) <> 0%nat).
      { intros Hz. apply map_size_empty_inv in Hz. rewrite Hz in Hbox.
        rewrite lookup_empty in Hbox. discriminate. }
      cbn. lia.
    + cbn. lia.
Qed.

(** X9: [get_total_todos] counts creations, not stored todos.  After any
    sequence of calls from the initial storage, the number of todos in
    storage is the counter minus the number of successful deletes, so it
    never exceeds what [get_total_todos] returns. *)
Theorem stored_todos_count (cs : list Call) :
  get_total_todos (run cs init).2
  = Some (Z.of_nat (size (todos (run cs init).2))
          + Z.of_nat (length (deleted_ids (run cs init).1)),
          (run cs init).2)
  /\ size (completed (run cs init).2) = size (todos (run cs init).2)
  /\ Z.of_nat (size (todos (run cs init).2)) <= todo_counter (run cs init).2.
Proof.
  pose proof (stored_plus_deleted cs) as Hsize.
  split; [rewrite get_total_todos_eq, Hsize; reflexivity |].
  split; [| lia].
  rewrite <- !size_dom, (same_keys _ _ (consistent_run cs)). reflexivity.
Qed.

(** ** Calls on different ids *)

(** X10: [complete_todo] and [delete_todo] on two different ids do not
    interfere, in any storage: both orders leave the same storage, and each
    call gives the same answer whether it goes first or second. *)
Theorem distinct_ids_commute (s : TodoApp) (i j : Z) :
  i <> j ->
  commute (CompleteTodo i) (CompleteTodo j) s
  /\ commute (CompleteTodo i) (DeleteTodo j) s
  /\ commute (DeleteTodo i) (DeleteTodo j) s.
Proof.
  intros Hne. unfold commute.
  rewrite !transact_complete, !transact_delete.
  destruct (todos s !! i) as [ti |] eqn:Hi;
    destruct (todos s !! j) as [tj |] eqn:Hj; cbn;
    rewrite ?transact_complete, ?transact_delete; cbn;
    rewrite ?lookup_delete_ne by congruence;
    rewrite ?Hi, ?Hj; cbn; unfold set_completed; cbn;
    rewrite ?(insert_insert_ne (completed s) j i) by congruence;
    rewrite ?(delete_insert_ne (completed s) j i) by congruence;
    rewrite ?(delete_delete (todos s) j i), ?(delete_delete (completed s) j i);
    repeat split; reflexivity.
Qed.

Lemma distinct_ids_commute_witness :
  1 <> 2
  /\ commute (CompleteTodo 1) (DeleteTodo 2)
       (run [CreateTodo "a"; CreateTodo "b"] init).2
  /\ ~ commute (CompleteTodo 1) (DeleteTodo 1)
         (run [CreateTodo "a"; CreateTodo "b"] init).2.
Proof.
  assert (H : 1 <> 2) by discriminate.
  split; [exact H |].
  split; [exact (proj1 (proj2 (distinct_ids_commute _ 1 2 H))) |].
  intros (_ & Hret & _). vm_compute in Hret. discriminate Hret.
Defined.

(** ** Create, then delete *)

(** X11: deleting the todo that [create_todo] has just returned brings both
    box maps back to what they were, but not the counter: in a storage
    reached from the initial one, the delete succeeds, the texts and flags
    are as before the create, and [get_total_todos] is one higher, so the
    next create does not hand the id out again. *)
Theorem create_then_delete
    (s : TodoApp) (task : string) (id : Z) (s1 : TodoApp) :
  reachable s ->
  create_todo task s = Some (id, s1) ->
  exists s2,
    delete_todo id s1 = Some ("Todo deleted successfully!", s2)
    /\ todos s2 = todos s
    /\ completed s2 = completed s
    /\ get_total_todos s2 = Some (todo_counter s + 1, s2).
Proof.
  intros Hreach Hcreate.
  destruct (reachable_fresh s Hreach) as [Ht Hc].
  apply create_todo_inv in Hcreate as (_ & -> & ->).
  eexists. split.
  - eapply delete_todo_present. cbn. apply lookup_insert_eq.
  - cbn. split; [apply delete_insert_id, Ht |].
    split; [apply delete_insert_id, Hc | reflexivity].
Qed.

Lemma create_then_delete_witness :
  reachable (run scenario init).2
  /\ create_todo "Feed cat" (run scenario init).2
     = Some (3, {| todo_counter := 3;
                   todos := {[ 2 := "Walk dog"; 3 := "Feed cat" ]};
                   completed := {[ 2 := false; 3 := false ]} |})
  /\ exists s2,
       delete_todo 3 {| todo_counter := 3;
                        todos := {[ 2 := "Walk dog"; 3 := "Feed cat" ]};
                        completed := {[ 2 := false; 3 := false ]} |}
       = Some ("Todo deleted successfully!", s2)
       /\ todos s2 = todos (run scenario init).2
       /\ completed s2 = completed (run scenario init).2
       /\ get_total_todos s2
          = Some (todo_counter (run scenario init).2 + 1, s2).
Proof.
  assert (H1 : reachable (run scenario init).2) by (exists scenario; reflexivity).
  assert (H2 : create_todo "Feed cat" (run scenario init).2
               = Some (3, {| todo_counter := 3;
                             todos := {[ 2 := "Walk dog"; 3 := "Feed cat" ]};
                             completed := {[ 2 := false; 3 := false ]} |}))
    by (vm_compute; reflexivity).
  split; [exact H1 |]. split; [exact H2 |].
  exact (create_then_delete _ _ _ _ H1 H2).
Defined.

(** ** A [True] answer is about a stored todo *)

(** X12: [is_completed] tests the completion map while the other methods
    test the text map, yet in a storage reached from the initial one they
    agree: when [is_completed] returns [True] the id has a text, which
    [get_todo] returns, and when the id has no text [is_completed] returns
    [False]. *)
Theorem completed_todo_exists (s : TodoApp) (id : Z) :
  reachable s ->
  (is_completed id s = Some (true, s) ->
   exists t, todos s !! id = Some t /\ get_todo id s = Some (t, s))
  /\ (todos s !! id = None -> is_completed id s = Some (false, s)).
Proof.
  intros [cs <-]. pose proof (same_keys _ _ (consistent_run cs)) as Hsame.
  split.
  - intros Hdone.
    destruct (completed (run cs init).2 !! id) as [b |] eqn:Hflag.
    + apply elem_of_dom_2 in Hflag. rewrite <- Hsame in Hflag.
      apply elem_of_dom in Hflag as [t Hbox].
      exists t. split; [exact Hbox | apply get_todo_present, Hbox].
    + rewrite (is_completed_missing _ _ Hflag) in Hdone. discriminate.
  - intros Hbox. apply is_completed_missing.
    apply not_elem_of_dom. rewrite <- Hsame. apply not_elem_of_dom, Hbox.
Qed.

Lemma completed_todo_exists_witness :
  reachable (run [CreateTodo "a"; CompleteTodo 1] init).2
  /\ is_completed 1 (run [CreateTodo "a"; CompleteTodo 1] init).2
     = Some (true, (run [CreateTodo "a"; CompleteTodo 1] init).2)
  /\ exists t,
       todos (run [CreateTodo "a"; CompleteTodo 1] init).2 !! 1 = Some t
       /\ get_todo 1 (run [CreateTodo "a"; CompleteTodo 1] init).2
          = Some (t, (run [CreateTodo "a"; CompleteTodo 1] init).2).
Proof.
  assert (H1 : reachable (run [CreateTodo "a"; CompleteTodo 1] init).2)
    by (exists [CreateTodo "a"; CompleteTodo 1]; reflexivity).
  assert (H2 : is_completed 1 (run [CreateTodo "a"; CompleteTodo 1] init).2
               = Some (true, (run [CreateTodo "a"; CompleteTodo 1] init).2))
    by (vm_compute; reflexivity).
  split; [exact H1 |]. split; [exact H2 |].
  exact (proj1 (completed_todo_exists _ 1 H1) H2).
Defined.
